(** * deltachat_rpc_client: the JSON-RPC correlation engine

    A shallow embedding of [class Deltachat] from
    [deltachat-rpc-client/src/deltachat_rpc_client/__init__.py]:
    the reader loop, the request-id counter, the table of pending
    futures, the event queue and the dynamic call surface
    ([__getattr__]).

    The program runs on asyncio's single-threaded cooperative scheduler,
    so the code between two [await]s that really suspend is atomic:
    - one turn of [reader_loop] (from the return of [readline] to the
      next [readline]; [Queue.put] on an unbounded queue never suspends);
    - the first half of a call, up to [await fut];
    - the second half of a call, after the future is done;
    - [get_next_event], once the queue has an item.
    Each of them is a function on the engine state below. *)

From stdpp Require Import gmap strings list fin_maps sorting.
From Stdlib Require Import ZArith.

Local Open Scope Z_scope.

(** ** Values *)

(** What [json.loads] returns and [json.dumps] accepts.  A decoded object
    is a Python dict; it is kept as an association list in which the
    first binding of a key is the one the dict holds.  Numbers are the
    integers; non-integer number literals (Python floats) are left out of
    the model. Python's [None] is [JNull]. *)
#[warnings="-register-all"]
Inductive json : Type :=
| JNull
| JBool (b : bool)
| JInt (n : Z)
| JStr (s : string)
| JArr (items : list json)
| JObj (fields : list (string * json)).

Abbreviation dict := (list (string * json)).

(** [d.get(k)]: [None] when [k not in d]. *)
Fixpoint dict_get (k : string) (d : dict) : option json :=
  match d with
  | [] => None
  | (k', v) :: d' => if bool_decide (k' = k) then Some v else dict_get k d'
  end.

(** [k in d] *)
Definition dict_has (k : string) (d : dict) : bool :=
  match dict_get k d with Some _ => true | None => false end.

(** [v == "event"] for a decoded value [v]: only the string itself is
    equal to a string. *)
Definition is_event (v : json) : bool :=
  match v with
  | JStr s => bool_decide (s = "event"%string)
  | _ => false
  end.

(** ** Exceptions and results *)

Inductive exn : Type :=
| JSONDecodeError
| KeyError
| TypeError
| AssertionError
| InvalidStateError
| JsonRpcError (payload : json).

Inductive result (A : Type) : Type :=
| Ok (a : A)
| Raise (e : exn).
Arguments Ok {A} a.
Arguments Raise {A} e.

(** ** The engine state *)

(** An [asyncio.Future]: pending, or done with the value given to
    [set_result].  The reader only ever completes a future with a decoded
    object. *)
Inductive future : Type :=
| FutPending
| FutDone (response : dict).

(** The reader task: still looping, or finished by an exception that
    escaped [reader_loop] (which has no other way to end). *)
Inductive task_state : Type :=
| Running
| Failed (e : exn).

(** The fields of a [Deltachat] object.  [futures] is the store of the
    futures made by [loop.create_future()]: a future is shared between
    the caller that awaits it and [request_events], so both hold its
    index in the store.  [stdin] is what has been written to
    [process.stdin], one request per line, oldest first; a line is kept
    as the dict given to [json.dumps]. *)
Record Deltachat : Type := mkDeltachat {
  event_queue : list json;
  id : Z;
  request_events : gmap Z nat;
  futures : list future;
  stdin : list json;
  reader_task : task_state
}.

(** [Deltachat.__init__] *)
Definition init : Deltachat :=
  {| event_queue := []; id := 0; request_events := ∅;
     futures := []; stdin := []; reader_task := Running |}.

Definition set_event_queue (q : list json) (s : Deltachat) : Deltachat :=
  {| event_queue := q; id := id s; request_events := request_events s;
     futures := futures s; stdin := stdin s; reader_task := reader_task s |}.
Definition set_id (n : Z) (s : Deltachat) : Deltachat :=
  {| event_queue := event_queue s; id := n; request_events := request_events s;
     futures := futures s; stdin := stdin s; reader_task := reader_task s |}.
Definition set_request_events (m : gmap Z nat) (s : Deltachat) : Deltachat :=
  {| event_queue := event_queue s; id := id s; request_events := m;
     futures := futures s; stdin := stdin s; reader_task := reader_task s |}.
Definition set_futures (f : list future) (s : Deltachat) : Deltachat :=
  {| event_queue := event_queue s; id := id s; request_events := request_events s;
     futures := f; stdin := stdin s; reader_task := reader_task s |}.
Definition set_stdin (w : list json) (s : Deltachat) : Deltachat :=
  {| event_queue := event_queue s; id := id s; request_events := request_events s;
     futures := futures s; stdin := w; reader_task := reader_task s |}.
Definition set_reader_task (t : task_state) (s : Deltachat) : Deltachat :=
  {| event_queue := event_queue s; id := id s; request_events := request_events s;
     futures := futures s; stdin := stdin s; reader_task := t |}.

(** ** Statements that may raise, over the engine state

    An exception leaves the state as the statements before it made it. *)
Definition M (A : Type) : Type := Deltachat → result A * Deltachat.

Definition ret {A} (a : A) : M A := λ s, (Ok a, s).
Definition raise {A} (e : exn) : M A := λ s, (Raise e, s).
Definition bind {A B} (m : M A) (k : A → M B) : M B :=
  λ s, match m s with
       | (Ok a, s') => k a s'
       | (Raise e, s') => (Raise e, s')
       end.
Definition gets {A} (f : Deltachat → A) : M A := λ s, (Ok (f s), s).
Definition modify (f : Deltachat → Deltachat) : M unit := λ s, (Ok tt, f s).
Definition lift {A} (r : result A) : M A := λ s, (r, s).

Notation "x <~ m ;; k" := (bind m (λ x, k))
  (at level 100, m at next level, right associativity).
Notation "m ;;; k" := (bind m (λ _, k))
  (at level 100, right associativity).

(** [d[k]] *)
Definition getitem (d : dict) (k : string) : M json :=
  match dict_get k d with
  | Some v => ret v
  | None => raise KeyError
  end.

(** ** The wire *)

(** One [await self.process.stdout.readline()], by what [json.loads]
    makes of the bytes: at end of stream [readline] returns the empty
    bytes, which are not a JSON document; [Garbage] is any other line that is not one. *)
Inductive wire_line : Type :=
| Eof
| Garbage
| Text (v : json).

Definition json_loads (line : wire_line) : result json :=
  match line with
  | Eof | Garbage => Raise JSONDecodeError
  | Text v => Ok v
  end.

(** ** reader_loop *)

(** [self.request_events.pop(key)].  The keys of the table are the ints
    put there by the calls.  A decoded int finds the key equal to it;
    [True] and [False] are the ints 1 and 0; [None] and strings hash but
    equal no int; lists and dicts are unhashable. *)
Definition key_int (key : json) : result (option Z) :=
  match key with
  | JInt n => Ok (Some n)
  | JBool b => Ok (Some (Z.b2z b))
  | JNull | JStr _ => Ok None
  | JArr _ | JObj _ => Raise TypeError
  end.

Definition request_events_pop (key : json) : M nat :=
  k <~ lift (key_int key);;
  match k with
  | None => raise KeyError
  | Some n =>
      tbl <~ gets request_events;;
      match tbl !! n with
      | None => raise KeyError
      | Some fut =>
          modify (set_request_events (delete n tbl));;;
          ret fut
      end
  end.

(** [fut.set_result(response)] *)
Definition set_result (fut : nat) (response : dict) : M unit :=
  fs <~ gets futures;;
  match fs !! fut with
  | Some FutPending => modify (set_futures (<[fut := FutDone response]> fs))
  | _ => raise InvalidStateError
  end.

(** [await self.event_queue.put(item)] *)
Definition queue_put (item : json) : M unit :=
  modify (λ s, set_event_queue (event_queue s ++ [item]) s).

(** The body of [while True] in [reader_loop], for the line just read.
    A decoded value that is not a dict raises [TypeError] on every path:
    [in] on a number, boolean or [None]; the subscript by a string on a
    list or a string. *)
Definition reader_body (line : wire_line) : M unit :=
  response <~ lift (json_loads line);;
  match response with
  | JObj o =>
      if dict_has "id" o then
        key <~ getitem o "id";;
        fut <~ request_events_pop key;;
        set_result fut o
      else
        m <~ getitem o "method";;
        if is_event m then
          params <~ getitem o "params";;
          queue_put params
        else ret tt
  | _ => raise TypeError
  end.

(** One line arriving on the output stream.  A running reader executes
    the body on it; an exception ends the task.  A reader that has ended
    reads nothing. *)
Definition reader_step (line : wire_line) (s : Deltachat) : Deltachat :=
  match reader_task s with
  | Failed _ => s
  | Running =>
      match reader_body line s with
      | (Ok _, s') => s'
      | (Raise e, s') => set_reader_task (Failed e) s'
      end
  end.

Definition reader_steps (lines : list wire_line) (s : Deltachat) : Deltachat :=
  foldl (λ s l, reader_step l s) s lines.

(** ** get_next_event *)

(** [await self.event_queue.get()]: [None] while the queue is empty (the
    consumer stays suspended). *)
Definition get_next_event (s : Deltachat) : option (json * Deltachat) :=
  match event_queue s with
  | [] => None
  | item :: q => Some (item, set_event_queue q s)
  end.

(** ** __getattr__: the call surface *)

(** The [request] dict of a call. *)
Definition request (attr : string) (params : json) (n : Z) : json :=
  JObj [("jsonrpc"%string, JStr "2.0"); ("method"%string, JStr attr);
        ("params"%string, params); ("id"%string, JInt n)].

(** [loop.create_future()] *)
Definition create_future : M nat :=
  fs <~ gets futures;;
  modify (set_futures (fs ++ [FutPending]));;;
  ret (length fs).

(** The coroutine [method] of [__getattr__(attr)], up to [await fut]:
    returns the future the call is then suspended on.  [args] is a tuple
    (encoded as a JSON array), [kwargs] a dict with string keys. *)
Definition method (attr : string) (args : list json) (kwargs : dict) : M nat :=
  modify (λ s, set_id (id s + 1) s);;;
  request_id <~ gets id;;
  params <~ (match kwargs with
             | [] => ret (JArr args)
             | _ :: _ =>
                 match args with
                 | [] => ret (JObj kwargs)
                 | _ :: _ => raise AssertionError
                 end
             end);;
  n <~ gets id;;
  modify (λ s, set_stdin (stdin s ++ [request attr params n]) s);;;
  fut <~ create_future;;
  modify (λ s, set_request_events (<[request_id := fut]> (request_events s)) s);;;
  ret fut.

(** The rest of [method], run with the [response] the future was
    completed with.  Falling off the end returns [None]. *)
Definition method_resume (response : dict) : result json :=
  match dict_get "error" response with
  | Some e => Raise (JsonRpcError e)
  | None =>
      match dict_get "result" response with
      | Some v => Ok v
      | None => Ok JNull
      end
  end.

(** The outcome of the call suspended on [fut], as of state [s]: [None]
    while the future is pending. *)
Definition await (fut : nat) (s : Deltachat) : option (result json) :=
  match futures s !! fut with
  | Some (FutDone response) => Some (method_resume response)
  | _ => None
  end.

(** ** Sessions *)

(** What the tasks around the engine do, one atomic piece at a time. *)
Inductive action : Type :=
| Recv (line : wire_line)
| Call (attr : string) (args : list json) (kwargs : dict)
| GetEvent.

Inductive observation : Type :=
| Silent
| Called (r : result nat)
| Event (params : json)
| Blocked.

Definition step (a : action) (s : Deltachat) : observation * Deltachat :=
  match a with
  | Recv line => (Silent, reader_step line s)
  | Call attr args kwargs =>
      let '(r, s') := method attr args kwargs s in (Called r, s')
  | GetEvent =>
      match get_next_event s with
      | Some (p, s') => (Event p, s')
      | None => (Blocked, s)
      end
  end.

Fixpoint run (t : list action) (s : Deltachat) : list observation * Deltachat :=
  match t with
  | [] => ([], s)
  | a :: t' =>
      let '(o, s') := step a s in
      let '(os, s'') := run t' s' in
      (o :: os, s'')
  end.

(** The states a session can be in. *)
Definition reachable (s : Deltachat) : Prop :=
  ∃ t, s = (run t init).2.

(** ** Vocabulary of the properties *)

(** The precondition of a call: not both positional and named arguments. *)
Definition valid_call (args : list json) (kwargs : dict) : bool :=
  match args, kwargs with
  | _ :: _, _ :: _ => false
  | _, _ => true
  end.

(** The [params] of an accepted call. *)
Definition params_of (args : list json) (kwargs : dict) : json :=
  match kwargs with
  | [] => JArr args
  | _ :: _ => JObj kwargs
  end.

Definition valid_action (a : action) : bool :=
  match a with
  | Call _ args kwargs => valid_call args kwargs
  | _ => true
  end.

(** The calls of a session, in the order they are made. *)
Fixpoint calls (t : list action) : list (string * json) :=
  match t with
  | [] => []
  | Call attr args kwargs :: t' => (attr, params_of args kwargs) :: calls t'
  | _ :: t' => calls t'
  end.

(** The requests of the calls [cs] when the counter stands at [n]. *)
Fixpoint requests_from (n : Z) (cs : list (string * json)) : list json :=
  match cs with
  | [] => []
  | (attr, params) :: cs' => request attr params (n + 1) :: requests_from (n + 1) cs'
  end.

(** The id written in a line of [stdin]. *)
Definition request_id (r : json) : option Z :=
  match r with
  | JObj o => match dict_get "id" o with Some (JInt n) => Some n | _ => None end
  | _ => None
  end.

(** The payload of a line that is a notification: an object without
    [id] whose [method] is ["event"]. *)
Definition notification_params (line : wire_line) : option json :=
  match line with
  | Text (JObj o) =>
      if dict_has "id" o then None
      else match dict_get "method" o with
           | Some m => if is_event m then dict_get "params" o else None
           | None => None
           end
  | _ => None
  end.

(** The notification payloads put on the wire during a session. *)
Fixpoint wire_events (t : list action) : list json :=
  match t with
  | [] => []
  | Recv line :: t' => option_list (notification_params line) ++ wire_events t'
  | _ :: t' => wire_events t'
  end.

(** What [get_next_event] returned during a session. *)
Fixpoint delivered (os : list observation) : list json :=
  match os with
  | [] => []
  | Event p :: os' => p :: delivered os'
  | _ :: os' => delivered os'
  end.

(** The engine state after a response completed future [fut] under
    key [k]. *)
Definition resolved (k : Z) (fut : nat) (response : dict) (s : Deltachat) : Deltachat :=
  set_futures (<[fut := FutDone response]> (futures s))
    (set_request_events (delete k (request_events s)) s).

(** The invariant of the pending-call table: every registered future is
    pending, is registered once, and under an id already handed out. *)
Record wf (s : Deltachat) : Prop := mk_wf {
  wf_pending : ∀ k h, request_events s !! k = Some h → futures s !! h = Some FutPending;
  wf_range : ∀ k h, request_events s !! k = Some h → 1 ≤ k ≤ id s;
  wf_id : 0 ≤ id s;
  wf_inj : ∀ k1 k2 h,
      request_events s !! k1 = Some h → request_events s !! k2 = Some h → k1 = k2
}.

(** The ids written to [stdin] so far: every line carries one, they
    grow strictly from line to line and lie between 1 and the counter. *)
Definition sent_ids_ok (s : Deltachat) : Prop :=
  ∃ ids : list Z,
    request_id <$> stdin s = Some <$> ids ∧
    StronglySorted Z.lt ids ∧
    Forall (λ n, 1 ≤ n ≤ id s) ids.

(** The ways one line can change the engine state. *)
Inductive reader_outcome (line : wire_line) (s : Deltachat) : Deltachat → Prop :=
| ro_ended e :
    reader_task s = Failed e →
    reader_outcome line s s
| ro_resolved k h o :
    reader_task s = Running →
    notification_params line = None →
    request_events s !! k = Some h →
    futures s !! h = Some FutPending →
    reader_outcome line s (resolved k h o s)
| ro_invalid k h :
    reader_task s = Running →
    notification_params line = None →
    request_events s !! k = Some h →
    reader_outcome line s
      (set_reader_task (Failed InvalidStateError)
         (set_request_events (delete k (request_events s)) s))
| ro_crash e :
    reader_task s = Running →
    reader_outcome line s (set_reader_task (Failed e) s)
| ro_skip :
    reader_task s = Running →
    notification_params line = None →
    reader_outcome line s s
| ro_event p :
    reader_task s = Running →
    notification_params line = Some p →
    reader_outcome line s (set_event_queue (event_queue s ++ [p]) s).

(** The calls of a session alone, without what the stream carried and
    without the reads of the event consumer. *)
Fixpoint only_calls (t : list action) : list action :=
  match t with
  | [] => []
  | Call attr args kwargs :: t' => Call attr args kwargs :: only_calls t'
  | _ :: t' => only_calls t'
  end.

(** * Properties *)

(** ** Equations of the operations *)

Ltac unfold_m :=
  unfold getitem, queue_put, create_future in *;
  unfold bind, ret, raise, gets, modify, lift in *.

Lemma reader_step_failed line s e :
  reader_task s = Failed e → reader_step line s = s.
Proof. intros H. unfold reader_step. by rewrite H. Qed.

Lemma reader_steps_failed lines s e :
  reader_task s = Failed e → reader_steps lines s = s.
Proof.
  intros H. induction lines as [|l lines IH]; [done|].
  unfold reader_steps in *. simpl. by rewrite (reader_step_failed _ _ e).
Qed.

Lemma reader_step_eof s :
  reader_task s = Running →
  reader_step Eof s = set_reader_task (Failed JSONDecodeError) s.
Proof. intros H. unfold reader_step. by rewrite H. Qed.

Lemma dict_has_get k d : dict_has k d = true ↔ is_Some (dict_get k d).
Proof.
  unfold dict_has. destruct (dict_get k d); split; intros H; try done.
Qed.

Lemma dict_has_none k d : dict_get k d = None → dict_has k d = false.
Proof. unfold dict_has. by intros ->. Qed.

Lemma dict_has_some k d v : dict_get k d = Some v → dict_has k d = true.
Proof. unfold dict_has. by intros ->. Qed.

(** A response whose id is the key of a pending future completes it. *)
Lemma reader_step_response s o key k h :
  reader_task s = Running →
  dict_get "id" o = Some key →
  key_int key = Ok (Some k) →
  request_events s !! k = Some h →
  futures s !! h = Some FutPending →
  reader_step (Text (JObj o)) s = resolved k h o s.
Proof.
  intros Hrun Hid Hkey Hk Hh.
  unfold reader_step, reader_body, request_events_pop, set_result.
  unfold_m. rewrite Hrun. cbn [json_loads].
  rewrite (dict_has_some _ _ _ Hid), Hid, Hkey, Hk. cbn. by rewrite Hh.
Qed.

(** A response whose id is the key of no pending future ends the reader
    and changes nothing else. *)
Lemma reader_step_unknown s o key :
  reader_task s = Running →
  dict_get "id" o = Some key →
  (∀ k, key_int key = Ok (Some k) → request_events s !! k = None) →
  reader_step (Text (JObj o)) s =
    set_reader_task
      (Failed (match key_int key with Raise e => e | Ok _ => KeyError end)) s.
Proof.
  intros Hrun Hid Hkey.
  unfold reader_step, reader_body, request_events_pop, set_result.
  unfold_m. rewrite Hrun. cbn [json_loads].
  rewrite (dict_has_some _ _ _ Hid), Hid.
  destruct (key_int key) as [[k|]|e] eqn:E; try done.
  by rewrite (Hkey k eq_refl).
Qed.

(** A message without id whose method is not ["event"] is passed over. *)
Lemma reader_step_other s o m :
  dict_get "id" o = None →
  dict_get "method" o = Some m →
  is_event m = false →
  reader_step (Text (JObj o)) s = s.
Proof.
  intros Hid Hm He.
  unfold reader_step, reader_body. unfold_m.
  destruct (reader_task s); [|done]. cbn [json_loads].
  by rewrite (dict_has_none _ _ Hid), Hm, He.
Qed.

Lemma reader_step_no_method s o :
  reader_task s = Running →
  dict_get "id" o = None →
  dict_get "method" o = None →
  reader_step (Text (JObj o)) s = set_reader_task (Failed KeyError) s.
Proof.
  intros Hrun Hid Hm.
  unfold reader_step, reader_body. unfold_m. rewrite Hrun. cbn [json_loads].
  by rewrite (dict_has_none _ _ Hid), Hm.
Qed.

(** A notification with a payload is put at the end of the queue. *)
Lemma reader_step_event s o m p :
  reader_task s = Running →
  dict_get "id" o = None →
  dict_get "method" o = Some m →
  is_event m = true →
  dict_get "params" o = Some p →
  reader_step (Text (JObj o)) s = set_event_queue (event_queue s ++ [p]) s.
Proof.
  intros Hrun Hid Hm He Hp.
  unfold reader_step, reader_body. unfold_m. rewrite Hrun. cbn [json_loads].
  by rewrite (dict_has_none _ _ Hid), Hm, He, Hp.
Qed.

(** An accepted call. *)
Lemma method_accept attr args kwargs s :
  valid_call args kwargs = true →
  method attr args kwargs s =
    (Ok (length (futures s)),
     {| event_queue := event_queue s;
        id := id s + 1;
        request_events := <[id s + 1 := length (futures s)]> (request_events s);
        futures := futures s ++ [FutPending];
        stdin := stdin s ++ [request attr (params_of args kwargs) (id s + 1)];
        reader_task := reader_task s |}).
Proof.
  intros Hv. unfold method. unfold_m.
  destruct kwargs as [|kw kwargs], args as [|a args]; try done.
Qed.

(** A rejected call: the counter has moved, nothing else has. *)
Lemma method_reject attr args kwargs s :
  valid_call args kwargs = false →
  method attr args kwargs s = (Raise AssertionError, set_id (id s + 1) s).
Proof.
  intros Hv. unfold method. unfold_m.
  destruct kwargs as [|kw kwargs], args as [|a args]; try done.
Qed.

(** Every line falls under one case of [reader_outcome]. *)
Lemma reader_step_outcome line s : reader_outcome line s (reader_step line s).
Proof.
  destruct (reader_task s) as [|e0] eqn:Hrun;
    [|rewrite (reader_step_failed _ _ e0 Hrun); by eapply ro_ended].
  destruct line as [| |v]; try (rewrite reader_step_eof by done; by apply ro_crash).
  - unfold reader_step, reader_body. unfold_m. rewrite Hrun. by apply ro_crash.
  - destruct v as [|b|n|str|items|o];
      try (unfold reader_step, reader_body; unfold_m; rewrite Hrun; by apply ro_crash).
    destruct (dict_get "id" o) as [key|] eqn:Hid.
    + assert (Hnone : notification_params (Text (JObj o)) = None).
      { simpl. by rewrite (dict_has_some _ _ _ Hid). }
      destruct (key_int key) as [[k|]|e] eqn:Hkey.
      * destruct (request_events s !! k) as [h|] eqn:Hk.
        -- destruct (futures s !! h) as [[|r]|] eqn:Hh.
           ++ rewrite (reader_step_response s o key k h) by done.
              by apply ro_resolved.
           ++ unfold reader_step, reader_body, request_events_pop, set_result.
              unfold_m. rewrite Hrun. cbn [json_loads].
              rewrite (dict_has_some _ _ _ Hid), Hid, Hkey, Hk. cbn. rewrite Hh.
              by apply (ro_invalid _ s k h).
           ++ unfold reader_step, reader_body, request_events_pop, set_result.
              unfold_m. rewrite Hrun. cbn [json_loads].
              rewrite (dict_has_some _ _ _ Hid), Hid, Hkey, Hk. cbn. rewrite Hh.
              by apply (ro_invalid _ s k h).
        -- rewrite (reader_step_unknown s o key) by (done || congruence).
           by apply ro_crash.
      * rewrite (reader_step_unknown s o key) by (done || congruence).
        by apply ro_crash.
      * rewrite (reader_step_unknown s o key) by (done || congruence).
        by apply ro_crash.
    + destruct (dict_get "method" o) as [m|] eqn:Hm.
      * destruct (is_event m) eqn:He.
        -- destruct (dict_get "params" o) as [p|] eqn:Hp.
           ++ rewrite (reader_step_event s o m p) by done.
              apply ro_event; [done|].
              simpl. by rewrite (dict_has_none _ _ Hid), Hm, He.
           ++ unfold reader_step, reader_body. unfold_m. rewrite Hrun.
              cbn [json_loads].
              rewrite (dict_has_none _ _ Hid), Hm, He, Hp. by apply ro_crash.
        -- rewrite (reader_step_other s o m) by done.
           apply ro_skip; [done|].
           simpl. by rewrite (dict_has_none _ _ Hid), Hm, He.
      * rewrite reader_step_no_method by done. by apply ro_crash.
Qed.

(** ** The invariant of the table *)

Lemma wf_init : wf init.
Proof. split; intros *; simpl; by rewrite ?lookup_empty. Qed.

Lemma wf_reader_step line s : wf s → wf (reader_step line s).
Proof.
  intros [Hp Hr H0 Hi].
  destruct (reader_step_outcome line s) as [e|k h o _ _ Hk Hh|k h _ _ Hk|e|_|p];
    try (by split).
  - split; simpl; [| |done|].
    + intros k' h' [Hne Hk']%lookup_delete_Some.
      rewrite list_lookup_insert_ne; [by eapply Hp|].
      intros <-. by apply Hne, (Hi k k' h).
    + intros k' h' [_ Hk']%lookup_delete_Some. by eapply Hr.
    + intros k1 k2 h' [_ H1]%lookup_delete_Some [_ H2]%lookup_delete_Some.
      by eapply Hi.
  - split; simpl; [| |done|].
    + intros k' h' [_ Hk']%lookup_delete_Some. by eapply Hp.
    + intros k' h' [_ Hk']%lookup_delete_Some. by eapply Hr.
    + intros k1 k2 h' [_ H1]%lookup_delete_Some [_ H2]%lookup_delete_Some.
      by eapply Hi.
Qed.

Lemma wf_reader_steps lines s : wf s → wf (reader_steps lines s).
Proof.
  revert s. induction lines as [|l lines IH]; intros s Hs; [done|].
  apply (IH (reader_step l s)). by apply wf_reader_step.
Qed.

Lemma wf_method attr args kwargs s : wf s → wf (method attr args kwargs s).2.
Proof.
  intros [Hp Hr H0 Hi].
  destruct (valid_call args kwargs) eqn:Hv.
  - rewrite method_accept by done. split; simpl; [| |lia|].
    + intros k h [[<- <-]|[Hne Hk]]%lookup_insert_Some.
      * by rewrite lookup_app_r, Nat.sub_diag by lia.
      * rewrite lookup_app_l; [by eapply Hp|].
        eapply lookup_lt_Some, Hp, Hk.
    + intros k h [[<- <-]|[Hne Hk]]%lookup_insert_Some; [lia|].
      specialize (Hr _ _ Hk). lia.
    + intros k1 k2 h [[<- <-]|[Hne1 Hk1]]%lookup_insert_Some
        [[<- E]|[Hne2 Hk2]]%lookup_insert_Some; try done.
      * apply Hp, lookup_lt_Some in Hk2. lia.
      * apply Hp, lookup_lt_Some in Hk1. lia.
      * by eapply Hi.
  - rewrite method_reject by done. split; simpl; [done| |lia|done].
    intros k h Hk. specialize (Hr _ _ Hk). lia.
Qed.

Lemma wf_step a s : wf s → wf (step a s).2.
Proof.
  intros Hs. destruct a as [line|attr args kwargs|]; simpl.
  - by apply wf_reader_step.
  - pose proof (wf_method attr args kwargs s Hs) as H.
    by destruct (method attr args kwargs s).
  - unfold get_next_event. destruct Hs.
    destruct (event_queue s); split; simpl; assumption.
Qed.

Lemma run_cons a t s :
  run (a :: t) s = ((step a s).1 :: (run t (step a s).2).1, (run t (step a s).2).2).
Proof.
  cbn [run]. destruct (step a s) as [o s']. cbn [fst snd].
  by destruct (run t s').
Qed.

Lemma wf_run t s : wf s → wf (run t s).2.
Proof.
  revert s. induction t as [|a t IH]; intros s Hs; [done|].
  rewrite run_cons. simpl. by apply IH, wf_step.
Qed.

Lemma wf_reachable s : reachable s → wf s.
Proof. intros [t ->]. apply wf_run, wf_init. Qed.

(** ** Frame properties of the reader *)

(** The reader never touches the counter or the input stream. *)
Lemma reader_step_frame line s :
  id (reader_step line s) = id s ∧ stdin (reader_step line s) = stdin s.
Proof. by destruct (reader_step_outcome line s). Qed.

(** A reader that has ended stays so. *)
Lemma reader_step_stays_failed line s e :
  reader_task s = Failed e → reader_task (reader_step line s) = Failed e.
Proof. intros H. by rewrite (reader_step_failed _ _ e). Qed.

Lemma await_pending s k h :
  wf s → request_events s !! k = Some h → await h s = None.
Proof. intros Hs Hk. unfold await. by rewrite (wf_pending s Hs k h Hk). Qed.

(** A call that is pending when the reader ends stays pending whatever
    the output stream carries afterwards. *)
Lemma pending_forever s e k h lines :
  wf s → reader_task s = Failed e → request_events s !! k = Some h →
  await h (reader_steps lines s) = None.
Proof.
  intros Hs He Hk. rewrite (reader_steps_failed _ _ e He).
  by eapply await_pending.
Qed.

(** ** Delivery of a response to its call *)

Lemma response_delivery s o key k h :
  wf s →
  reader_task s = Running →
  request_events s !! k = Some h →
  dict_get "id" o = Some key →
  key_int key = Ok (Some k) →
  let s' := reader_step (Text (JObj o)) s in
  await h s' = Some (method_resume o) ∧
  (∀ k' h', k' ≠ k → request_events s !! k' = Some h' →
     request_events s' !! k' = Some h' ∧ await h' s' = None) ∧
  (∀ h', h' ≠ h → await h' s' = await h' s) ∧
  request_events s' !! k = None ∧
  reader_task s' = Running ∧
  event_queue s' = event_queue s.
Proof.
  intros Hs Hrun Hk Hid Hkey s'. subst s'.
  pose proof (wf_pending s Hs k h Hk) as Hh.
  rewrite (reader_step_response s o key k h) by done.
  unfold await, resolved. simpl. split_and!.
  - by rewrite list_lookup_insert_eq by by eapply lookup_lt_Some.
  - intros k' h' Hne Hk'. split; [by rewrite lookup_delete_ne|].
    rewrite list_lookup_insert_ne.
    + by rewrite (wf_pending s Hs k' h').
    + intros <-. by destruct (Hne (wf_inj s Hs k' k h Hk' Hk)).
  - intros h' Hne. by rewrite list_lookup_insert_ne.
  - by rewrite lookup_delete_eq.
  - done.
  - done.
Qed.

(** ** Calls and responses *)

(** C1: a response whose id is that of a pending call and which carries
    a result makes that call return exactly the result; every other
    pending call stays registered and pending, whatever the order in
    which the calls were made. *)
Theorem C1_response_resolves_its_call s o key k h v :
  reachable s →
  reader_task s = Running →
  request_events s !! k = Some h →
  dict_get "id" o = Some key →
  key_int key = Ok (Some k) →
  dict_get "error" o = None →
  dict_get "result" o = Some v →
  let s' := reader_step (Text (JObj o)) s in
  await h s' = Some (Ok v) ∧
  (∀ k' h', k' ≠ k → request_events s !! k' = Some h' →
     request_events s' !! k' = Some h' ∧ await h' s' = None) ∧
  (∀ h', h' ≠ h → await h' s' = await h' s) ∧
  reader_task s' = Running.
Proof.
  intros Hs%wf_reachable Hrun Hk Hid Hkey Herr Hres.
  destruct (response_delivery s o key k h Hs Hrun Hk Hid Hkey)
    as (Hme & Hothers & Hframe & _ & Hrun' & _).
  split_and!; try done.
  rewrite Hme. unfold method_resume. by rewrite Herr, Hres.
Qed.

Lemma C1_witness :
  let s := (run [Call "a" [] []; Call "b" [] []] init).2 in
  let o := [("id"%string, JInt 2); ("result"%string, JStr "pong")] in
  await 1%nat (reader_step (Text (JObj o)) s) = Some (Ok (JStr "pong")).
Proof.
  intros s o.
  refine (proj1 (C1_response_resolves_its_call s o (JInt 2) 2 1%nat (JStr "pong")
                   _ _ _ _ _ _ _)).
  - by exists [Call "a" [] []; Call "b" [] []].
  - reflexivity.
  - vm_compute. reflexivity.
  - reflexivity.
  - reflexivity.
  - reflexivity.
  - reflexivity.
Defined.

(** The scenario of the specification: calls 5 and 6 are pending, the
    responses arrive as 6 then 5, each call returns its own result. *)
Example out_of_order_5_6 :
  let t := [Call "m1" [] []; Call "m2" [] []; Call "m3" [] []; Call "m4" [] [];
            Call "m5" [] []; Call "m6" [] []] in
  let s := (run t init).2 in
  let r6 := Text (JObj [("id"%string, JInt 6); ("result"%string, JStr "six")]) in
  let r5 := Text (JObj [("id"%string, JInt 5); ("result"%string, JStr "five")]) in
  request_events s !! 5 = Some 4%nat ∧
  request_events s !! 6 = Some 5%nat ∧
  await 4%nat (reader_steps [r6; r5] s) = Some (Ok (JStr "five")) ∧
  await 5%nat (reader_steps [r6; r5] s) = Some (Ok (JStr "six")).
Proof. vm_compute. done. Qed.

(** C4: a response with an [error] field makes its call raise
    [JsonRpcError] with exactly that error value, never return (even
    when a [result] is there as well); the other pending calls and the
    reader are as before. *)
Theorem C4_error_response_raises s o key k h e :
  reachable s →
  reader_task s = Running →
  request_events s !! k = Some h →
  dict_get "id" o = Some key →
  key_int key = Ok (Some k) →
  dict_get "error" o = Some e →
  let s' := reader_step (Text (JObj o)) s in
  await h s' = Some (Raise (JsonRpcError e)) ∧
  (∀ v, await h s' ≠ Some (Ok v)) ∧
  (∀ k' h', k' ≠ k → request_events s !! k' = Some h' →
     request_events s' !! k' = Some h' ∧ await h' s' = None) ∧
  (∀ h', h' ≠ h → await h' s' = await h' s) ∧
  reader_task s' = Running.
Proof.
  intros Hs%wf_reachable Hrun Hk Hid Hkey Herr.
  destruct (response_delivery s o key k h Hs Hrun Hk Hid Hkey)
    as (Hme & Hothers & Hframe & _ & Hrun' & _).
  assert (Hraise : await h (reader_step (Text (JObj o)) s)
                   = Some (Raise (JsonRpcError e))).
  { rewrite Hme. unfold method_resume. by rewrite Herr. }
  split_and!; try done.
  intros v. by rewrite Hraise.
Qed.

Lemma C4_witness :
  let s := (run [Call "a" [] []; Call "b" [] []] init).2 in
  let err := JObj [("code"%string, JInt (-32601)); ("message"%string, JStr "no")] in
  let o := [("id"%string, JInt 1); ("error"%string, err); ("result"%string, JInt 0)] in
  await 0%nat (reader_step (Text (JObj o)) s) = Some (Raise (JsonRpcError err)).
Proof.
  intros s err o.
  refine (proj1 (C4_error_response_raises s o (JInt 1) 1 0%nat err _ _ _ _ _ _)).
  - by exists [Call "a" [] []; Call "b" [] []].
  - reflexivity.
  - vm_compute. reflexivity.
  - reflexivity.
  - reflexivity.
  - reflexivity.
Defined.

(** C10: a response for a pending call with neither [result] nor
    [error] makes the call return [None]: it does not raise and it does
    not stay suspended. *)
Theorem C10_bare_response_returns_none s o key k h :
  reachable s →
  reader_task s = Running →
  request_events s !! k = Some h →
  dict_get "id" o = Some key →
  key_int key = Ok (Some k) →
  dict_get "result" o = None →
  dict_get "error" o = None →
  await h (reader_step (Text (JObj o)) s) = Some (Ok JNull).
Proof.
  intros Hs%wf_reachable Hrun Hk Hid Hkey Hres Herr.
  destruct (response_delivery s o key k h Hs Hrun Hk Hid Hkey) as (Hme & _).
  rewrite Hme. unfold method_resume. by rewrite Herr, Hres.
Qed.

Lemma C10_witness :
  let s := (run [Call "a" [] []] init).2 in
  await 0%nat (reader_step (Text (JObj [("id"%string, JInt 1)])) s) = Some (Ok JNull).
Proof.
  intros s.
  refine (C10_bare_response_returns_none s [("id"%string, JInt 1)] (JInt 1) 1 0%nat
            _ _ _ _ _ _ _).
  - by exists [Call "a" [] []].
  - reflexivity.
  - vm_compute. reflexivity.
  - reflexivity.
  - reflexivity.
  - reflexivity.
  - reflexivity.
Defined.


(** ** End of stream and protocol violations *)

(** C3, as first stated, fails: with one call pending, end of stream
    ends the reader and the call is not failed, it stays suspended. *)
Lemma C3_counterexample :
  let s := (run [Call "get_info" [] []] init).2 in
  reader_task s = Running ∧
  request_events s !! 1 = Some 0%nat ∧
  await 0%nat (reader_step Eof s) = None ∧
  ¬ (∃ e, await 0%nat (reader_step Eof s) = Some (Raise e)).
Proof.
  vm_compute. split_and!; try done. by intros [e He].
Qed.

(** C3, amended: at end of stream the reader task ends with the decode
    error of the empty line and pushes no event; the pending calls are
    not failed: the table and the futures are as before, and nothing the
    stream carries later completes them. *)
Theorem C3_eof_ends_reader_only s :
  reachable s →
  reader_task s = Running →
  let s' := reader_step Eof s in
  reader_task s' = Failed JSONDecodeError ∧
  event_queue s' = event_queue s ∧
  request_events s' = request_events s ∧
  futures s' = futures s ∧
  (∀ k h lines, request_events s !! k = Some h →
     await h (reader_steps lines s') = None).
Proof.
  intros Hs%wf_reachable Hrun s'. subst s'.
  rewrite reader_step_eof by done. split_and!; try done.
  intros k h lines Hk.
  apply (pending_forever _ JSONDecodeError k); [by destruct Hs| done | done].
Qed.

Lemma C3_witness :
  let s := (run [Call "get_info" [] []; Call "get_all_account_ids" [] []] init).2 in
  reader_task (reader_step Eof s) = Failed JSONDecodeError.
Proof.
  intros s. refine (proj1 (C3_eof_ends_reader_only s _ _)).
  - by exists [Call "get_info" [] []; Call "get_all_account_ids" [] []].
  - reflexivity.
Defined.

(** C6, as first stated, fails: a response with the unregistered id 99
    ends the reader, and the caller that is pending is told nothing. *)
Lemma C6_counterexample :
  let s := (run [Call "get_info" [] []] init).2 in
  let line := Text (JObj [("id"%string, JInt 99); ("result"%string, JNull)]) in
  request_events s !! 1 = Some 0%nat ∧
  request_events s !! 99 = None ∧
  reader_task (reader_step line s) = Failed KeyError ∧
  ¬ (∃ e, await 0%nat (reader_step line s) = Some (Raise e)).
Proof.
  vm_compute. split_and!; try done. by intros [e He].
Qed.

(** C6, amended: a response whose id is the key of no pending call is
    not passed over: it ends the reader task with the exception of the
    table lookup ([KeyError]; [TypeError] for an unhashable id).  The
    error reaches no caller: the table, the futures and the queue are as
    before, and the pending calls stay pending from then on. *)
Theorem C6_unknown_id_ends_reader_only s o key :
  reachable s →
  reader_task s = Running →
  dict_get "id" o = Some key →
  (∀ k, key_int key = Ok (Some k) → request_events s !! k = None) →
  let s' := reader_step (Text (JObj o)) s in
  (reader_task s' = Failed KeyError ∨ reader_task s' = Failed TypeError) ∧
  (∀ k, key = JInt k → reader_task s' = Failed KeyError) ∧
  event_queue s' = event_queue s ∧
  request_events s' = request_events s ∧
  futures s' = futures s ∧
  (∀ k h lines, request_events s !! k = Some h →
     await h (reader_steps lines s') = None).
Proof.
  intros Hs%wf_reachable Hrun Hid Hkey s'. subst s'.
  rewrite (reader_step_unknown s o key) by done.
  split_and!; try done.
  - destruct key; simpl; auto.
  - by intros k ->.
  - intros k h lines Hk.
    eapply (pending_forever _ _ k); [by destruct Hs| done | done].
Qed.

Lemma C6_witness :
  let s := (run [Call "get_info" [] []] init).2 in
  let o := [("id"%string, JInt 99); ("result"%string, JNull)] in
  let late := [Text (JObj [("id"%string, JInt 1); ("result"%string, JInt 5)])] in
  await 0%nat (reader_steps late (reader_step (Text (JObj o)) s)) = None.
Proof.
  intros s o late.
  refine (proj2 (proj2 (proj2 (proj2 (proj2
            (C6_unknown_id_ends_reader_only s o (JInt 99) _ _ _ _))))) 1 0%nat late _).
  - by exists [Call "get_info" [] []].
  - reflexivity.
  - reflexivity.
  - intros k [= <-]. vm_compute. reflexivity.
  - vm_compute. reflexivity.
Defined.

(** C7, as first stated, fails: a message without id whose method is
    ["ping"] does not end the reader; the reader is still running and
    the pending call has not been failed. *)
Lemma C7_counterexample :
  let s := (run [Call "get_info" [] []] init).2 in
  let line := Text (JObj [("method"%string, JStr "ping"); ("params"%string, JArr [])]) in
  reader_task (reader_step line s) = Running ∧
  ¬ (∃ e, reader_task (reader_step line s) = Failed e) ∧
  ¬ (∃ e, await 0%nat (reader_step line s) = Some (Raise e)).
Proof.
  vm_compute. split_and!; try done; by intros [e He].
Qed.

(** C7, amended: a decoded object without id whose [method] is there
    and is not ["event"] is passed over: the engine state is what it was
    (reader state, table, futures and queue), and the lines after it are
    read as if it had not come. *)
Theorem C7_other_method_is_skipped s o m :
  dict_get "id" o = None →
  dict_get "method" o = Some m →
  is_event m = false →
  reader_step (Text (JObj o)) s = s ∧
  (∀ lines, reader_steps (Text (JObj o) :: lines) s = reader_steps lines s) ∧
  (∀ h, await h (reader_step (Text (JObj o)) s) = await h s).
Proof.
  intros Hid Hm He.
  assert (Hskip : reader_step (Text (JObj o)) s = s)
    by by apply (reader_step_other s o m).
  split_and!; [done| |].
  - intros lines. unfold reader_steps. simpl. by rewrite Hskip.
  - intros h. by rewrite Hskip.
Qed.

Lemma C7_witness :
  let s := (run [Call "get_info" [] []] init).2 in
  let o := [("method"%string, JStr "ping"); ("params"%string, JArr [])] in
  reader_step (Text (JObj o)) s = s.
Proof.
  intros s o.
  refine (proj1 (C7_other_method_is_skipped s o (JStr "ping") _ _ _)); reflexivity.
Defined.

(** C8, as first stated, fails: after end of stream has ended the
    reader, a call is not refused; it is sent and then waits. *)
Lemma C8_counterexample :
  let s := reader_step Eof init in
  reader_task s = Failed JSONDecodeError ∧
  (method "get_info" [] [] s).1 = Ok 0%nat ∧
  ¬ (∃ e, (method "get_info" [] [] s).1 = Raise e) ∧
  await 0%nat (method "get_info" [] [] s).2 = None.
Proof.
  vm_compute. split_and!; try done. by intros [e He].
Qed.

(** C8, amended: once the reader task has ended, a call is still taken
    like any other: it gets the next id, its request is written and its
    future registered; the call then stays suspended whatever the
    stream carries. *)
Theorem C8_call_after_reader_ended_hangs s e attr args kwargs :
  reader_task s = Failed e →
  valid_call args kwargs = true →
  let r := method attr args kwargs s in
  r.1 = Ok (length (futures s)) ∧
  stdin r.2 = stdin s ++ [request attr (params_of args kwargs) (id s + 1)] ∧
  request_events r.2 !! (id s + 1) = Some (length (futures s)) ∧
  (∀ lines, await (length (futures s)) (reader_steps lines r.2) = None).
Proof.
  intros He Hv r. subst r. rewrite method_accept by done. simpl.
  split_and!; try done.
  - by rewrite lookup_insert_eq.
  - intros lines. rewrite (reader_steps_failed _ _ e) by done.
    unfold await. simpl. by rewrite lookup_app_r, Nat.sub_diag by lia.
Qed.

Lemma C8_witness :
  let s := reader_step Eof init in
  let late := [Text (JObj [("id"%string, JInt 1); ("result"%string, JInt 5)])] in
  await 0%nat (reader_steps late (method "get_info" [JInt 1] [] s).2) = None.
Proof.
  intros s late.
  refine (proj2 (proj2 (proj2
            (C8_call_after_reader_ended_hangs s JSONDecodeError "get_info" [JInt 1] [] _ _)))
            late);
    reflexivity.
Defined.

(** ** The precondition of a call *)

(** C9: a call given both positional and named arguments fails at once
    with [AssertionError], before anything is written or registered; a
    call with one kind of arguments, or none, is accepted and writes its
    request. *)
Theorem C9_args_and_kwargs_exclusive attr args kwargs s :
  let r := method attr args kwargs s in
  (args ≠ [] → kwargs ≠ [] →
     r.1 = Raise AssertionError ∧
     stdin r.2 = stdin s ∧
     request_events r.2 = request_events s ∧
     futures r.2 = futures s) ∧
  (args = [] ∨ kwargs = [] →
     r.1 = Ok (length (futures s)) ∧
     stdin r.2 = stdin s ++ [request attr (params_of args kwargs) (id s + 1)] ∧
     request_events r.2 = <[id s + 1 := length (futures s)]> (request_events s)).
Proof.
  intros r. subst r. split.
  - intros Ha Hk. rewrite method_reject; [done|].
    by destruct args, kwargs.
  - intros Hv. rewrite method_accept; [done|].
    destruct Hv as [-> | ->]; [done|]. by destruct args.
Qed.

Lemma C9_witness :
  (method "set_config" [JInt 1] [("key"%string, JStr "addr")] init).1
    = Raise AssertionError ∧
  (method "set_config" [JInt 1; JStr "addr"] [] init).1 = Ok 0%nat ∧
  (method "set_config" [] [("key"%string, JStr "addr")] init).1 = Ok 0%nat ∧
  (method "get_system_info" [] [] init).1 = Ok 0%nat.
Proof.
  split_and!.
  - refine (proj1 (proj1 (C9_args_and_kwargs_exclusive
              "set_config" [JInt 1] [("key"%string, JStr "addr")] init) _ _)); done.
  - refine (proj1 (proj2 (C9_args_and_kwargs_exclusive
              "set_config" [JInt 1; JStr "addr"] [] init) _)). by right.
  - refine (proj1 (proj2 (C9_args_and_kwargs_exclusive
              "set_config" [] [("key"%string, JStr "addr")] init) _)). by left.
  - refine (proj1 (proj2 (C9_args_and_kwargs_exclusive
              "get_system_info" [] [] init) _)). by left.
Defined.

(** ** Request ids *)

Lemma request_id_request attr params n : request_id (request attr params n) = Some n.
Proof. reflexivity. Qed.

Lemma sent_ids_init : sent_ids_ok init.
Proof. exists []. split_and!; by constructor. Qed.

Lemma sent_ids_step a s : wf s → sent_ids_ok s → sent_ids_ok (step a s).2.
Proof.
  intros Hs (ids & Hids & Hsorted & Hrange). unfold sent_ids_ok.
  destruct a as [line|attr args kwargs|]; cbn [step snd].
  - destruct (reader_step_frame line s) as [Hid Hin].
    exists ids. by rewrite Hid, Hin.
  - destruct (valid_call args kwargs) eqn:Hv.
    + rewrite method_accept by done. cbn [snd stdin id].
      exists (ids ++ [id s + 1]). split_and!.
      * by rewrite !fmap_app, Hids.
      * apply StronglySorted_app; split_and!; [|done|repeat constructor].
        intros x1 x2 Hx1 ->%list_elem_of_singleton.
        rewrite Forall_forall in Hrange. specialize (Hrange x1 Hx1). lia.
      * apply Forall_app. split.
        -- eapply Forall_impl; [done|]. simpl. lia.
        -- apply Forall_singleton. pose proof (wf_id s Hs). lia.
    + rewrite method_reject by done. cbn [snd set_id stdin id].
      exists ids. split_and!; [done..|].
      eapply Forall_impl; [done|]. simpl. lia.
  - unfold get_next_event. destruct (event_queue s); by exists ids.
Qed.

Lemma sent_ids_run t s : wf s → sent_ids_ok s → sent_ids_ok (run t s).2.
Proof.
  revert s. induction t as [|a t IH]; intros s Hs Hids; [done|].
  rewrite run_cons. simpl. apply IH; [by apply wf_step|by apply sent_ids_step].
Qed.

(** A session whose calls all meet the precondition writes the requests
    of its calls, numbered on from the counter. *)
Lemma run_valid_calls t s :
  forallb valid_action t = true →
  stdin (run t s).2 = stdin s ++ requests_from (id s) (calls t) ∧
  id (run t s).2 = id s + Z.of_nat (length (calls t)).
Proof.
  revert s. induction t as [|a t IH]; intros s Hv.
  - simpl. rewrite app_nil_r. split; [done|lia].
  - apply andb_prop in Hv as [Ha Ht]. rewrite run_cons. cbn [snd].
    destruct (IH (step a s).2 Ht) as [IH1 IH2]. rewrite IH1, IH2.
    destruct a as [line|attr args kwargs|]; cbn [step snd calls].
    + destruct (reader_step_frame line s) as [-> ->]. done.
    + simpl in Ha. rewrite method_accept by done.
      cbn [snd stdin id requests_from length].
      rewrite <- app_assoc. split; [done|lia].
    + unfold get_next_event. by destruct (event_queue s).
Qed.

Lemma increasing_NoDup (ids : list Z) : StronglySorted Z.lt ids → NoDup ids.
Proof.
  induction 1 as [|n ids Hs IH Hn]; constructor; [|done].
  intros Hin. rewrite Forall_forall in Hn. specialize (Hn n Hin). lia.
Qed.

Lemma sent_ids_NoDup s : sent_ids_ok s → NoDup (request_id <$> stdin s).
Proof.
  intros (ids & -> & Hsorted & _).
  apply NoDup_fmap_2; [apply _|]. by apply increasing_NoDup.
Qed.

(** C2: in any session the ids written to the input stream grow
    strictly from request to request and start above 0, so none is used
    twice; every outstanding id is one already handed out, so the id of
    the next call is not in the table; and when every call meets the
    precondition, the session has written exactly one request per call,
    the n-th call with id n. *)
Theorem C2_request_ids_increase t :
  let s := (run t init).2 in
  sent_ids_ok s ∧
  NoDup (request_id <$> stdin s) ∧
  (∀ k h, request_events s !! k = Some h → 1 ≤ k ≤ id s) ∧
  request_events s !! (id s + 1) = None ∧
  (forallb valid_action t = true →
     stdin s = requests_from 0 (calls t) ∧
     id s = Z.of_nat (length (calls t))).
Proof.
  intros s. subst s.
  pose proof (wf_run t init wf_init) as Hwf.
  split_and!.
  - apply sent_ids_run; [apply wf_init|apply sent_ids_init].
  - apply sent_ids_NoDup, sent_ids_run; [apply wf_init|apply sent_ids_init].
  - apply (wf_range _ Hwf).
  - destruct (request_events (run t init).2 !! (id (run t init).2 + 1)) as [h|] eqn:E;
      [|done].
    apply (wf_range _ Hwf) in E. lia.
  - intros Hv. destruct (run_valid_calls t init Hv) as [H1 H2].
    rewrite H1, H2. done.
Qed.

Lemma C2_witness :
  let t := [Call "get_system_info" [] [];
            Recv (Text (JObj [("id"%string, JInt 1); ("result"%string, JNull)]));
            Call "get_info" [JInt 7] [];
            Call "set_config" [] [("key"%string, JStr "addr")]] in
  stdin (run t init).2 =
    [request "get_system_info" (JArr []) 1;
     request "get_info" (JArr [JInt 7]) 2;
     request "set_config" (JObj [("key"%string, JStr "addr")]) 3].
Proof.
  intros t.
  refine (proj1 (proj2 (proj2 (proj2 (proj2 (C2_request_ids_increase t)))) _)).
  reflexivity.
Defined.

(** ** Events *)

(** A call leaves the queue and the reader alone. *)
Lemma method_frame attr args kwargs s :
  event_queue (method attr args kwargs s).2 = event_queue s ∧
  reader_task (method attr args kwargs s).2 = reader_task s.
Proof.
  destruct (valid_call args kwargs) eqn:Hv.
  - by rewrite method_accept.
  - by rewrite method_reject.
Qed.

Lemma step_call attr args kwargs s :
  step (Call attr args kwargs) s =
    (Called (method attr args kwargs s).1, (method attr args kwargs s).2).
Proof. simpl. by destruct (method attr args kwargs s). Qed.

(** Once the reader has ended, the consumer only drains what is queued. *)
Lemma run_reader_ended t s e :
  reader_task s = Failed e →
  delivered (run t s).1 ++ event_queue (run t s).2 = event_queue s ∧
  reader_task (run t s).2 = Failed e.
Proof.
  revert s. induction t as [|a t IH]; intros s He; [done|].
  rewrite run_cons. cbn [fst snd].
  destruct a as [line|attr args kwargs|].
  - cbn [step fst snd delivered]. rewrite (reader_step_failed _ _ e He). by apply IH.
  - rewrite step_call. cbn [fst snd delivered].
    destruct (method_frame attr args kwargs s) as [Hq Hr].
    rewrite <- Hq. apply IH. by rewrite Hr.
  - cbn [step]. unfold get_next_event.
    destruct (event_queue s) as [|p q] eqn:Hq; cbn [fst snd delivered].
    + destruct (IH s He) as [IH1 IH2]. by rewrite Hq in IH1.
    + destruct (IH (set_event_queue q s) He) as [IH1 IH2].
      split; [|done]. simpl. by rewrite IH1.
Qed.

(** What has been returned together with what is still queued is the
    payloads put on the wire, in their order, up to the end of the
    reader. *)
Lemma run_events t s :
  ∃ rest,
    delivered (run t s).1 ++ event_queue (run t s).2 ++ rest
      = event_queue s ++ wire_events t ∧
    (reader_task (run t s).2 = Running → rest = []).
Proof.
  revert s. induction t as [|a t IH]; intros s.
  { exists []. by rewrite !app_nil_r. }
  rewrite run_cons. cbn [fst snd].
  destruct a as [line|attr args kwargs|].
  - cbn [step fst snd delivered wire_events].
    destruct (reader_step_outcome line s) as [e He|k h o _ Hn _ _|k h _ Hn _|e _|_ Hn|p _ Hn].
    + destruct (run_reader_ended t s e He) as [H1 H2].
      exists (option_list (notification_params line) ++ wire_events t).
      split; [by rewrite app_assoc, H1|]. by rewrite H2.
    + destruct (IH (resolved k h o s)) as (rest & H1 & H2).
      exists rest. by rewrite Hn.
    + destruct (IH (set_reader_task (Failed InvalidStateError)
                      (set_request_events (delete k (request_events s)) s)))
        as (rest & H1 & H2).
      exists rest. by rewrite Hn.
    + destruct (run_reader_ended t (set_reader_task (Failed e) s) e eq_refl)
        as [H1 H2].
      exists (option_list (notification_params line) ++ wire_events t).
      split; [by rewrite app_assoc, H1|]. by rewrite H2.
    + destruct (IH s) as (rest & H1 & H2). exists rest. by rewrite Hn.
    + destruct (IH (set_event_queue (event_queue s ++ [p]) s)) as (rest & H1 & H2).
      exists rest. split; [|done]. rewrite H1, Hn. simpl. by rewrite <- app_assoc.
  - rewrite step_call. cbn [fst snd delivered wire_events].
    destruct (IH (method attr args kwargs s).2) as (rest & H1 & H2).
    exists rest. split; [|done].
    by rewrite H1, (proj1 (method_frame attr args kwargs s)).
  - cbn [step wire_events]. unfold get_next_event.
    destruct (event_queue s) as [|p q] eqn:Hq; cbn [fst snd delivered].
    + destruct (IH s) as (rest & H1 & H2). exists rest. by rewrite Hq in H1.
    + destruct (IH (set_event_queue q s)) as (rest & H1 & H2).
      exists rest. split; [|done]. simpl. by rewrite H1.
Qed.

(** C5: what [get_next_event] returns during a session is, in order, a
    prefix of the payloads of the notifications put on the wire, whatever
    calls and responses come in between; while the reader runs, the
    payloads returned followed by those still queued are all of them;
    and a queued payload is returned at once, the oldest first. *)
Theorem C5_events_fifo t :
  let r := run t init in
  delivered r.1 `prefix_of` wire_events t ∧
  (reader_task r.2 = Running →
     delivered r.1 ++ event_queue r.2 = wire_events t) ∧
  (∀ s p q, event_queue s = p :: q →
     get_next_event s = Some (p, set_event_queue q s)).
Proof.
  intros r. subst r.
  destruct (run_events t init) as (rest & H1 & H2). simpl in H1.
  split_and!.
  - exists (event_queue (run t init).2 ++ rest). by rewrite H1.
  - intros Hrun. rewrite (H2 Hrun), app_nil_r in H1. done.
  - intros s p q Hq. unfold get_next_event. by rewrite Hq.
Qed.

Lemma C5_witness :
  let ev n := Text (JObj [("method"%string, JStr "event"); ("params"%string, JInt n)]) in
  let t := [Call "get_info" [] []; Recv (ev 10); Recv (ev 20); GetEvent;
            Recv (Text (JObj [("id"%string, JInt 1); ("result"%string, JNull)]));
            Recv (ev 30); GetEvent; GetEvent; GetEvent] in
  delivered (run t init).1 ++ event_queue (run t init).2 = [JInt 10; JInt 20; JInt 30].
Proof.
  intros ev t.
  refine (proj1 (proj2 (C5_events_fifo t)) _).
  vm_compute. reflexivity.
Defined.

(** ** Two more scenarios of the specification *)

(** [add_account] is sent with id 1 and an empty parameter list; the
    reply with result 42 makes the call return 42. *)
Example scenario_add_account :
  let s := (method "add_account" [] [] init).2 in
  let reply := Text (JObj [("id"%string, JInt 1); ("result"%string, JInt 42)]) in
  stdin s = [JObj [("jsonrpc"%string, JStr "2.0"); ("method"%string, JStr "add_account");
                   ("params"%string, JArr []); ("id"%string, JInt 1)]] ∧
  await 0%nat s = None ∧
  await 0%nat (reader_step reply s) = Some (Ok (JInt 42)).
Proof. vm_compute. done. Qed.

(** An event that arrives while a call is still pending is returned by
    the next [get_next_event]. *)
Example scenario_event_before_reply :
  let payload :=
    JObj [("contextId"%string, JInt 1);
          ("event"%string, JObj [("type"%string, JStr "Info"); ("msg"%string, JStr "hi")])] in
  let line := Text (JObj [("method"%string, JStr "event"); ("params"%string, payload)]) in
  (run [Call "get_info" [JInt 1] []; Recv line; GetEvent] init).1
    = [Called (Ok 0%nat); Silent; Event payload].
Proof. vm_compute. done. Qed.

(** * Further properties of the engine *)

(** ** A call and its reply *)

(** X1: a call followed by the reply that carries its id and a result: the
    call is suspended until the reply is read, then returns the result,
    and its id is no longer in the table. *)
Theorem call_round_trip attr args kwargs s o v :
  reader_task s = Running →
  valid_call args kwargs = true →
  dict_get "id" o = Some (JInt (id s + 1)) →
  dict_get "error" o = None →
  dict_get "result" o = Some v →
  let c := method attr args kwargs s in
  let s' := reader_step (Text (JObj o)) c.2 in
  c.1 = Ok (length (futures s)) ∧
  await (length (futures s)) c.2 = None ∧
  await (length (futures s)) s' = Some (Ok v) ∧
  request_events s' !! (id s + 1) = None.
Proof.
  intros Hrun Hv Hid Herr Hres c s'. subst c s'.
  rewrite method_accept by done. cbn [fst snd].
  rewrite (reader_step_response _ o (JInt (id s + 1)) (id s + 1) (length (futures s)));
    try done.
  - unfold await, resolved. cbn. split_and!.
    + done.
    + by rewrite lookup_app_r, Nat.sub_diag by lia.
    + rewrite list_lookup_insert_eq by (rewrite length_app; simpl; lia).
      unfold method_resume. by rewrite Herr, Hres.
    + by rewrite lookup_delete_eq.
  - cbn. by rewrite lookup_insert_eq.
  - cbn. by rewrite lookup_app_r, Nat.sub_diag by lia.
Qed.

Lemma call_round_trip_witness :
  let o := [("id"%string, JInt 1); ("result"%string, JArr [JInt 3; JInt 4])] in
  await 0%nat (reader_step (Text (JObj o)) (method "get_all_account_ids" [] [] init).2)
    = Some (Ok (JArr [JInt 3; JInt 4])).
Proof.
  intros o.
  refine (proj1 (proj2 (proj2
            (call_round_trip "get_all_account_ids" [] [] init o (JArr [JInt 3; JInt 4])
               _ _ _ _ _)))); reflexivity.
Defined.

(** ** Order of responses *)

(** X2: two responses for two different pending calls leave the engine in
    the same state whichever is read first. *)
Theorem responses_commute s o1 o2 key1 key2 k1 k2 h1 h2 :
  reachable s →
  reader_task s = Running →
  k1 ≠ k2 →
  request_events s !! k1 = Some h1 →
  request_events s !! k2 = Some h2 →
  dict_get "id" o1 = Some key1 → key_int key1 = Ok (Some k1) →
  dict_get "id" o2 = Some key2 → key_int key2 = Ok (Some k2) →
  reader_steps [Text (JObj o1); Text (JObj o2)] s
    = reader_steps [Text (JObj o2); Text (JObj o1)] s.
Proof.
  intros Hs%wf_reachable Hrun Hne Hk1 Hk2 Hid1 Hkey1 Hid2 Hkey2.
  pose proof (wf_pending s Hs k1 h1 Hk1) as Hh1.
  pose proof (wf_pending s Hs k2 h2 Hk2) as Hh2.
  assert (Hh : h1 ≠ h2).
  { intros <-. by apply Hne, (wf_inj s Hs k1 k2 h1). }
  unfold reader_steps. cbn [foldl].
  rewrite (reader_step_response s o1 key1 k1 h1) by done.
  rewrite (reader_step_response s o2 key2 k2 h2) by done.
  rewrite (reader_step_response _ o2 key2 k2 h2); try done.
  - rewrite (reader_step_response _ o1 key1 k1 h1); try done.
    + unfold resolved, set_futures, set_request_events. cbn.
      f_equal;
        first [apply delete_delete | apply list_insert_insert_ne; congruence].
    + cbn. by rewrite lookup_delete_ne.
    + cbn. by rewrite list_lookup_insert_ne.
  - cbn. by rewrite lookup_delete_ne.
  - cbn. by rewrite list_lookup_insert_ne.
Qed.

Lemma responses_commute_witness :
  let s := (run [Call "a" [] []; Call "b" [] []] init).2 in
  let o1 := [("id"%string, JInt 1); ("result"%string, JStr "one")] in
  let o2 := [("id"%string, JInt 2); ("error"%string, JStr "two")] in
  reader_steps [Text (JObj o1); Text (JObj o2)] s
    = reader_steps [Text (JObj o2); Text (JObj o1)] s.
Proof.
  intros s o1 o2.
  refine (responses_commute s o1 o2 (JInt 1) (JInt 2) 1 2 0%nat 1%nat _ _ _ _ _ _ _ _ _).
  - by exists [Call "a" [] []; Call "b" [] []].
  - reflexivity.
  - lia.
  - vm_compute. reflexivity.
  - vm_compute. reflexivity.
  - reflexivity.
  - reflexivity.
  - reflexivity.
  - reflexivity.
Defined.

(** ** A call completes once *)

Lemma done_step a s h o :
  wf s →
  futures s !! h = Some (FutDone o) →
  futures (step a s).2 !! h = Some (FutDone o).
Proof.
  intros Hs Hh. destruct a as [line|attr args kwargs|].
  - cbn [step snd].
    destruct (reader_step_outcome line s) as [e|k h' o' _ _ Hk Hh'|k h' _ _ Hk|e|_|p];
      try done.
    cbn. rewrite list_lookup_insert_ne; [done|]. intros ->. congruence.
  - rewrite step_call. cbn [snd].
    destruct (valid_call args kwargs) eqn:Hv.
    + rewrite method_accept by done. cbn.
      rewrite lookup_app_l; [done|]. by eapply lookup_lt_Some.
    + by rewrite method_reject.
  - cbn [step]. unfold get_next_event. by destruct (event_queue s).
Qed.

(** X3: once a call has an outcome, nothing that happens later in the
    session changes it: a future is completed once. *)
Theorem outcome_is_final s h r t :
  reachable s →
  await h s = Some r →
  await h (run t s).2 = Some r.
Proof.
  intros Hs%wf_reachable Hr. unfold await in *.
  destruct (futures s !! h) as [[|o]|] eqn:Hh; try done.
  revert s Hs Hh. induction t as [|a t IH]; intros s Hs Hh.
  - simpl. by rewrite Hh.
  - rewrite run_cons. cbn [snd].
    apply IH; [by apply wf_step|by apply done_step].
Qed.

Lemma outcome_is_final_witness :
  let s := (run [Call "a" [] [];
                 Recv (Text (JObj [("id"%string, JInt 1); ("result"%string, JInt 7)]))]
              init).2 in
  let t := [Recv (Text (JObj [("id"%string, JInt 1); ("result"%string, JInt 8)]));
            Call "b" [] []; Recv Eof] in
  await 0%nat (run t s).2 = Some (Ok (JInt 7)).
Proof.
  intros s t.
  refine (outcome_is_final s 0%nat (Ok (JInt 7)) t _ _).
  - by eexists [Call "a" [] []; Recv _].
  - vm_compute. reflexivity.
Defined.

(** X4: a second response with the id of a call already answered finds no
    entry: it ends the reader with [KeyError], and the call keeps the
    outcome the first response gave it. *)
Theorem duplicate_response_ends_reader s o o' key key' k h :
  reachable s →
  reader_task s = Running →
  request_events s !! k = Some h →
  dict_get "id" o = Some key → key_int key = Ok (Some k) →
  dict_get "id" o' = Some key' → key_int key' = Ok (Some k) →
  let s' := reader_steps [Text (JObj o); Text (JObj o')] s in
  reader_task s' = Failed KeyError ∧
  await h s' = Some (method_resume o).
Proof.
  intros Hs%wf_reachable Hrun Hk Hid Hkey Hid' Hkey' s'. subst s'.
  pose proof (wf_pending s Hs k h Hk) as Hh.
  unfold reader_steps. cbn [foldl].
  rewrite (reader_step_response s o key k h) by done.
  rewrite (reader_step_unknown _ o' key'); try done.
  - rewrite Hkey'. split; [done|].
    unfold await. cbn.
    by rewrite list_lookup_insert_eq by by eapply lookup_lt_Some.
  - intros k0 Hk0. rewrite Hkey' in Hk0. injection Hk0 as <-.
    cbn. by rewrite lookup_delete_eq.
Qed.

Lemma duplicate_response_witness :
  let s := (run [Call "a" [] []] init).2 in
  let o := [("id"%string, JInt 1); ("result"%string, JInt 7)] in
  let o' := [("id"%string, JInt 1); ("result"%string, JInt 8)] in
  reader_task (reader_steps [Text (JObj o); Text (JObj o')] s) = Failed KeyError.
Proof.
  intros s o o'.
  refine (proj1 (duplicate_response_ends_reader s o o' (JInt 1) (JInt 1) 1 0%nat
                   _ _ _ _ _ _ _)).
  - by exists [Call "a" [] []].
  - reflexivity.
  - vm_compute. reflexivity.
  - reflexivity.
  - reflexivity.
  - reflexivity.
  - reflexivity.
Defined.

(** ** How the reader can end *)

Lemma reader_step_no_params s o m :
  reader_task s = Running →
  dict_get "id" o = None →
  dict_get "method" o = Some m →
  is_event m = true →
  dict_get "params" o = None →
  reader_step (Text (JObj o)) s = set_reader_task (Failed KeyError) s.
Proof.
  intros Hrun Hid Hm He Hp.
  unfold reader_step, reader_body. unfold_m. rewrite Hrun. cbn [json_loads].
  by rewrite (dict_has_none _ _ Hid), Hm, He, Hp.
Qed.







(** ** Lines the reader cannot decode or does not expect *)



(** X7: an object with an [id] field is handled as a response whatever else
    it carries: even with [method] equal to ["event"] and a [params]
    field, nothing is put on the event queue. *)
Theorem message_with_id_is_never_an_event s o key :
  dict_get "id" o = Some key →
  event_queue (reader_step (Text (JObj o)) s) = event_queue s.
Proof.
  intros Hid.
  assert (Hn : notification_params (Text (JObj o)) = None).
  { simpl. by rewrite (dict_has_some _ _ _ Hid). }
  destruct (reader_step_outcome (Text (JObj o)) s)
    as [e|k h o' _ _ _ _|k h _ _ _|e|_|p _ Hp]; try done.
  congruence.
Qed.

Lemma message_with_id_is_never_an_event_witness :
  let o := [("method"%string, JStr "event"); ("params"%string, JInt 5);
            ("id"%string, JInt 1)] in
  let s := (run [Call "a" [] []] init).2 in
  event_queue (reader_step (Text (JObj o)) s) = event_queue s.
Proof.
  intros o s.
  refine (message_with_id_is_never_an_event s o (JInt 1) _). reflexivity.
Defined.

(** X8: a notification whose [method] is ["event"] but which has no
    [params] ends the reader with [KeyError] and queues nothing; the
    pending calls are as before. *)
Theorem event_without_params_ends_reader s o m :
  reader_task s = Running →
  dict_get "id" o = None →
  dict_get "method" o = Some m →
  is_event m = true →
  dict_get "params" o = None →
  let s' := reader_step (Text (JObj o)) s in
  reader_task s' = Failed KeyError ∧
  event_queue s' = event_queue s ∧
  request_events s' = request_events s ∧
  futures s' = futures s.
Proof.
  intros Hrun Hid Hm He Hp s'. subst s'.
  by rewrite (reader_step_no_params s o m).
Qed.

Lemma event_without_params_ends_reader_witness :
  reader_task (reader_step (Text (JObj [("method"%string, JStr "event")])) init)
    = Failed KeyError.
Proof.
  refine (proj1 (event_without_params_ends_reader init
                   [("method"%string, JStr "event")] (JStr "event") _ _ _ _ _));
    reflexivity.
Defined.

(** ** Ids that are not integers *)



(** X10: a response whose [id] is the boolean [true] is taken for the call
    with id 1 (in Python [True == 1] and both hash alike): that call gets
    the response and leaves the table.  The boolean [false] stands for
    0, which is never the id of a call, so it ends the reader. *)
Theorem boolean_id_is_an_integer s o h :
  reachable s →
  reader_task s = Running →
  (request_events s !! 1 = Some h →
   dict_get "id" o = Some (JBool true) →
     await h (reader_step (Text (JObj o)) s) = Some (method_resume o) ∧
     request_events (reader_step (Text (JObj o)) s) !! 1 = None) ∧
  (dict_get "id" o = Some (JBool false) →
     reader_step (Text (JObj o)) s = set_reader_task (Failed KeyError) s).
Proof.
  intros Hs%wf_reachable Hrun. split.
  - intros Hk Hid.
    destruct (response_delivery s o (JBool true) 1 h Hs Hrun Hk Hid eq_refl)
      as (Hme & _ & _ & Hgone & _).
    done.
  - intros Hid. rewrite (reader_step_unknown s o (JBool false)); try done.
    intros k [= <-]. simpl.
    destruct (request_events s !! 0) as [h0|] eqn:E; [|done].
    apply (wf_range s Hs) in E. lia.
Qed.

Lemma boolean_id_is_an_integer_witness :
  let s := (run [Call "a" [] []] init).2 in
  let o := [("id"%string, JBool true); ("result"%string, JInt 9)] in
  await 0%nat (reader_step (Text (JObj o)) s) = Some (Ok (JInt 9)).
Proof.
  intros s o.
  refine (proj1 (proj1 (boolean_id_is_an_integer s o 0%nat _ _) _ _)).
  - by exists [Call "a" [] []].
  - reflexivity.
  - vm_compute. reflexivity.
  - reflexivity.
Defined.

(** ** What the calls write *)

(** X11: a call refused for having both kinds of arguments has used up an
    id all the same: nothing is written for it, and the next call is
    sent with the id after the one it took. *)
Theorem rejected_call_consumes_id s attr args kwargs attr' args' kwargs' :
  valid_call args kwargs = false →
  valid_call args' kwargs' = true →
  let s1 := (method attr args kwargs s).2 in
  stdin s1 = stdin s ∧
  id s1 = id s + 1 ∧
  stdin (method attr' args' kwargs' s1).2
    = stdin s ++ [request attr' (params_of args' kwargs') (id s + 2)].
Proof.
  intros Hbad Hgood s1. subst s1.
  rewrite method_reject by done. cbn [snd].
  rewrite method_accept by done. cbn.
  split_and!; [done|done|].
  by replace (id s + 1 + 1) with (id s + 2) by lia.
Qed.

Lemma rejected_call_consumes_id_witness :
  let s1 := (method "set_config" [JInt 1] [("key"%string, JStr "addr")] init).2 in
  stdin (method "get_info" [JInt 1] [] s1).2 = [request "get_info" (JArr [JInt 1]) 2].
Proof.
  intros s1.
  refine (proj2 (proj2 (rejected_call_consumes_id init
            "set_config" [JInt 1] [("key"%string, JStr "addr")]
            "get_info" [JInt 1] [] _ _))); reflexivity.
Defined.

Lemma only_calls_gen t s s' :
  id s = id s' → stdin s = stdin s' →
  stdin (run t s).2 = stdin (run (only_calls t) s').2 ∧
  id (run t s).2 = id (run (only_calls t) s').2.
Proof.
  revert s s'. induction t as [|a t IH]; intros s s' Hid Hin; [done|].
  destruct a as [line|attr args kwargs|]; cbn [only_calls].
  - rewrite run_cons. cbn [step snd].
    destruct (reader_step_frame line s) as [H1 H2].
    apply IH; congruence.
  - rewrite !run_cons. cbn [snd]. rewrite !step_call. cbn [snd].
    destruct (valid_call args kwargs) eqn:Hv.
    + rewrite !method_accept by done. apply IH; cbn; congruence.
    + rewrite !method_reject by done. apply IH; cbn; congruence.
  - rewrite run_cons. cbn [step]. unfold get_next_event.
    destruct (event_queue s); cbn [snd]; by apply IH.
Qed.

(** X12: what a session writes to the input stream, and where its counter
    stands, depends on its calls alone: not on the lines read, not on
    whether the reader is still running, not on the events taken. *)
Theorem written_requests_depend_only_on_calls t :
  stdin (run t init).2 = stdin (run (only_calls t) init).2 ∧
  id (run t init).2 = id (run (only_calls t) init).2.
Proof. by apply only_calls_gen. Qed.

(** X13: in any session, the id of every pending call is the id of a request
    that has been written to the input stream. *)
Theorem pending_ids_were_sent t k h :
  request_events (run t init).2 !! k = Some h →
  Some k ∈ request_id <$> stdin (run t init).2.
Proof.
  assert (Hgen : ∀ t s,
    (∀ k h, request_events s !! k = Some h → Some k ∈ request_id <$> stdin s) →
    ∀ k h, request_events (run t s).2 !! k = Some h →
           Some k ∈ request_id <$> stdin (run t s).2).
  { clear. induction t as [|a t IH]; intros s Hinv; [done|].
    rewrite run_cons. cbn [snd]. apply IH.
    intros k h. destruct a as [line|attr args kwargs|].
    - cbn [step snd]. rewrite (proj2 (reader_step_frame line s)).
      destruct (reader_step_outcome line s)
        as [e|k' h' o _ _ _ _|k' h' _ _ _|e|_|p]; cbn;
        try apply Hinv;
        intros [_ Hk]%lookup_delete_Some; by eapply Hinv.
    - rewrite step_call. cbn [snd].
      destruct (valid_call args kwargs) eqn:Hv.
      + rewrite method_accept by done. cbn [snd request_events stdin].
        rewrite fmap_app, elem_of_app.
        intros [[<- _]|[_ Hk]]%lookup_insert_Some.
        * right. rewrite list_fmap_singleton, request_id_request.
          by apply list_elem_of_singleton.
        * left. by eapply Hinv.
      + rewrite method_reject by done. cbn. apply Hinv.
    - cbn [step]. unfold get_next_event.
      destruct (event_queue s); cbn; apply Hinv. }
  apply Hgen. intros k' h'. cbn. by rewrite lookup_empty.
Qed.

Lemma pending_ids_were_sent_witness :
  let t := [Call "a" [] [];
            Recv (Text (JObj [("id"%string, JInt 1); ("result"%string, JNull)]));
            Call "b" [] []] in
  Some 2 ∈ request_id <$> stdin (run t init).2.
Proof.
  intros t.
  refine (pending_ids_were_sent t 2 1%nat _).
  vm_compute. reflexivity.
Defined.

(** ** Events once the reader has ended *)

(** X14: after the reader task has ended, the consumer still gets the
    payloads that were queued, in their order, and nothing else: when
    the queue is empty, [get_next_event] does not return any more,
    whatever the stream carries and whatever calls are made. *)
Theorem events_after_reader_ended s e t :
  reader_task s = Failed e →
  delivered (run t s).1 `prefix_of` event_queue s ∧
  delivered (run t s).1 ++ event_queue (run t s).2 = event_queue s ∧
  (event_queue s = [] → delivered (run t s).1 = []).
Proof.
  intros He. destruct (run_reader_ended t s e He) as [H _].
  split_and!; [|done|].
  - eexists. by rewrite H.
  - intros Hq. rewrite Hq in H. by apply app_eq_nil in H as [? _].
Qed.

Lemma events_after_reader_ended_witness :
  let ev := Text (JObj [("method"%string, JStr "event"); ("params"%string, JInt 1)]) in
  let s := (run [Recv ev; Recv Eof] init).2 in
  delivered (run [GetEvent; Recv ev; GetEvent; GetEvent] s).1 `prefix_of` [JInt 1].
Proof.
  intros ev s.
  refine (proj1 (events_after_reader_ended s JSONDecodeError
                   [GetEvent; Recv ev; GetEvent; GetEvent] _)).
  reflexivity.
Defined.
